(** * pyforming: a shallow embedding of the beamforming routines

    The Python package [pyforming] holds four functions: [mrt], [zfbf],
    [slnr_max] (normalised beamforming directions computed with numpy) and
    [brb_algorithm_cvx] (the entry point of the Branch-Reduce-and-Bound
    search).  This development embeds them as Rocq functions and states
    what the code does.

    Conventions.
    - A Python exception is a value of [exn]; a call that may raise returns
      a [result].
    - numpy arrays are typed by rank, as the docstrings type them: a 1-D
      array is a list, a 2-D array a [matrix] (shape and rows), a 3-D
      array a [stack] (shape and slices).
    - The scalars of the arrays and the numerical kernels of numpy
      ([np.linalg.norm], [np.linalg.lstsq]) are numpy's, not the
      package's: they are the fields of the class [Numeric]. *)

From Stdlib Require Import String List Arith Bool ZArith QArith Lia.
Import ListNotations.
Local Open Scope nat_scope.

(** ** Exceptions and fallible computations *)

Inductive exn : Type :=
| TypeError
| ValueError
| IndexError
| LinAlgError.

Inductive result (A : Type) : Type :=
| Ok (a : A)
| Raise (e : exn).

Arguments Ok {A} a.
Arguments Raise {A} e.

Definition bind {A B : Type} (m : result A) (f : A -> result B) : result B :=
  match m with
  | Ok a => f a
  | Raise e => Raise e
  end.

Notation "x <- m ;; k" := (bind m (fun x => k))
  (at level 100, m at next level, right associativity).

Definition raises {A : Type} (m : result A) : Prop :=
  exists e, m = Raise e.

(** [for k in ks: w = body(k, w)], stopping at the first exception. *)
Fixpoint for_range {W : Type} (ks : list nat) (body : nat -> W -> result W)
  (w : W) : result W :=
  match ks with
  | [] => Ok w
  | k :: ks' => w' <- body k w ;; for_range ks' body w'
  end.

(** ** numpy arrays *)

Module Np.

(** A 2-D array: [rows] holds [nrows] lists of [ncols] items. *)
Record matrix (C : Type) : Type := Matrix {
  nrows : nat;
  ncols : nat;
  rows : list (list C)
}.

(** A 3-D array indexed [k, i, j]: [slices] holds [depth] row lists. *)
Record stack (C : Type) : Type := Stack {
  depth : nat;
  srows : nat;
  scols : nat;
  slices : list (list (list C))
}.

Arguments Matrix {C}.
Arguments nrows {C}.
Arguments ncols {C}.
Arguments rows {C}.
Arguments Stack {C}.
Arguments depth {C}.
Arguments srows {C}.
Arguments scols {C}.
Arguments slices {C}.

(** The scalar operations and the two numpy kernels the package calls.
    [norm2 v] is [np.linalg.norm(v, ord=2)] of a 1-D array;
    [lstsq_solve a b] is the solution array of
    [np.linalg.lstsq(a, b, rcond=-1)] for a 2-D right-hand side, entry by
    entry, or [None] when the SVD does not converge. *)
Class Numeric (C : Type) : Type := {
  c0 : C;
  c1 : C;
  cadd : C -> C -> C;
  cmul : C -> C -> C;
  cdiv : C -> C -> C;
  cconj : C -> C;
  norm2 : list C -> C;
  lstsq_solve : matrix C -> matrix C -> option (nat -> nat -> C)
}.

Section Arrays.

Context {C : Type} `{Numeric C}.

Definition vector : Type := list C.

Definition entry (m : matrix C) (i j : nat) : C :=
  nth j (nth i (rows m) []) c0.

Definition mk_matrix (r c : nat) (f : nat -> nat -> C) : matrix C :=
  Matrix r c (map (fun i => map (fun j => f i j) (seq 0 c)) (seq 0 r)).

Definition mk_stack (p r c : nat) (f : nat -> nat -> nat -> C) : stack C :=
  Stack p r c
    (map (fun k => map (fun i => map (fun j => f k i j) (seq 0 c)) (seq 0 r))
       (seq 0 p)).

(** [a.shape] of a 2-D array, as the sequence numpy hands out. *)
Definition shape (m : matrix C) : nat * nat := (nrows m, ncols m).

(** [np.transpose] of a 1-D array or of a sequence, such as the shape
    tuple of an array: the axes are reversed, and a single axis reversed is
    itself, so the sequence comes back unchanged (numpy: "for a 1-D array,
    this returns an unchanged view of the original array"). *)
Definition np_transpose_1d {A : Type} (v : A) : A := v.

(** [np.transpose] of a 2-D array. *)
Definition np_transpose (m : matrix C) : matrix C :=
  mk_matrix (ncols m) (nrows m) (fun i j => entry m j i).

Definition np_conj (m : matrix C) : matrix C :=
  mk_matrix (nrows m) (ncols m) (fun i j => cconj (entry m i j)).

Definition np_conj_1d (v : vector) : vector := map cconj v.

(** [np.zeros(sh)] and [np.ones(sh)] for a two-item shape. *)
Definition np_zeros (sh : nat * nat) : matrix C :=
  mk_matrix (fst sh) (snd sh) (fun _ _ => c0).

Definition np_ones (sh : nat * nat) : matrix C :=
  mk_matrix (fst sh) (snd sh) (fun _ _ => c1).

Definition np_eye (n : nat) : matrix C :=
  mk_matrix n n (fun i j => if i =? j then c1 else c0).

(** [np.tile(a, [r0, r1, r2])] of a 2-D array [a]: [a] is promoted to
    shape [(1, nrows, ncols)] and repeated along each axis. *)
Definition np_tile (a : matrix C) (r0 r1 r2 : nat) : stack C :=
  mk_stack (1 * r0) (nrows a * r1) (ncols a * r2)
    (fun _ i j => entry a (i mod nrows a) (j mod ncols a)).

(** [m[k, :]] *)
Definition get_row (m : matrix C) (k : nat) : result vector :=
  if k <? nrows m
  then Ok (map (fun j => entry m k j) (seq 0 (ncols m)))
  else Raise IndexError.

(** [m[:, k]] *)
Definition get_col (m : matrix C) (k : nat) : result vector :=
  if k <? ncols m
  then Ok (map (fun i => entry m i k) (seq 0 (nrows m)))
  else Raise IndexError.

(** [d[k, :, :]] *)
Definition get_slice (d : stack C) (k : nat) : result (matrix C) :=
  if k <? depth d
  then Ok (Matrix (srows d) (scols d) (nth k (slices d) []))
  else Raise IndexError.

Definition sum (xs : list C) : C := fold_right cadd c0 xs.

(** [np.matmul] of a 1-D array by a 2-D array. *)
Definition matmul_1d (v : vector) (m : matrix C) : result vector :=
  if length v =? nrows m
  then Ok (map (fun j =>
             sum (map (fun k => cmul (nth k v c0) (entry m k j))
                    (seq 0 (nrows m))))
           (seq 0 (ncols m)))
  else Raise ValueError.

(** [np.matmul] of two 2-D arrays. *)
Definition matmul (a b : matrix C) : result (matrix C) :=
  if ncols a =? nrows b
  then Ok (mk_matrix (nrows a) (ncols b) (fun i j =>
             sum (map (fun k => cmul (entry a i k) (entry b k j))
                    (seq 0 (ncols a)))))
  else Raise ValueError.

(** Broadcasting of one axis: equal lengths, or one of them 1. *)
Definition broadcast_dim (a b : nat) : option nat :=
  if a =? b then Some a
  else if a =? 1 then Some b
  else if b =? 1 then Some a
  else None.

Definition bidx (len i : nat) : nat := if len =? 1 then 0 else i.

(** An elementwise binary operation on two 2-D arrays, with numpy's
    broadcasting. *)
Definition broadcast2 (f : C -> C -> C) (a b : matrix C) : result (matrix C) :=
  match broadcast_dim (nrows a) (nrows b), broadcast_dim (ncols a) (ncols b) with
  | Some r, Some c =>
      Ok (mk_matrix r c (fun i j =>
            f (entry a (bidx (nrows a) i) (bidx (ncols a) j))
              (entry b (bidx (nrows b) i) (bidx (ncols b) j))))
  | _, _ => Raise ValueError
  end.

(** A 1-D operand of a 2-D operation is broadcast as a single row. *)
Definition as_row (v : vector) : matrix C := Matrix 1 (length v) [v].

(** [v / s] for a 1-D array and a scalar. *)
Definition div_scalar (v : vector) (s : C) : vector :=
  map (fun x => cdiv x s) v.

(** [w[:, k] = v]: the index is checked first, then [v] is broadcast
    into the column. *)
Definition set_col (w : matrix C) (k : nat) (v : vector) : result (matrix C) :=
  if k <? ncols w then
    if length v =? nrows w then
      Ok (mk_matrix (nrows w) (ncols w) (fun i j =>
            if j =? k then nth i v c0 else entry w i j))
    else if length v =? 1 then
      Ok (mk_matrix (nrows w) (ncols w) (fun i j =>
            if j =? k then nth 0 v c0 else entry w i j))
    else Raise ValueError
  else Raise IndexError.

(** [np.linalg.lstsq(a, b, rcond=-1)[0]] for a 2-D [b]: the solution has
    shape [(ncols a, ncols b)]. *)
Definition np_linalg_lstsq (a b : matrix C) : result (matrix C) :=
  if nrows a =? nrows b then
    match lstsq_solve a b with
    | Some x => Ok (mk_matrix (ncols a) (ncols b) x)
    | None => Raise LinAlgError
    end
  else Raise LinAlgError.

(** The same for a 1-D [b], which numpy solves as one column and hands
    back as a 1-D array of length [ncols a]. *)
Definition np_linalg_lstsq_1d (a : matrix C) (b : vector) : result vector :=
  x <- np_linalg_lstsq a (np_transpose (as_row b)) ;;
  get_col x 0.

(** The stack of [kr] identity matrices of size [n], written out. *)
Definition identity_stack (kr n : nat) : stack C :=
  mk_stack kr n n (fun _ i j => if i =? j then c1 else c0).

(** The [kr x 1] column of ones, written out. *)
Definition ones_column (kr : nat) : matrix C :=
  mk_matrix kr 1 (fun _ _ => c1).

(** [h[k, :] . d[k]], the channel of user [k] through its mask, entry by
    entry, for a mask stack of shape [(Kr, n, n)] with [n] the number of
    columns of [h]. *)
Definition masked_channel (h : matrix C) (d : stack C) (k : nat) : vector :=
  map (fun j =>
         sum (map (fun i => cmul (entry h k i)
                              (nth j (nth i (nth k (slices d) []) []) c0))
                (seq 0 (ncols h))))
    (seq 0 (ncols h)).

End Arrays.

End Np.

(** ** The beamforming routines *)

Import Np.

Section Beamforming.

Context {C : Type} `{Numeric C}.

(** The body of the loop of [mrt], mrt.py lines 47-54, at user [k], with
    [d] the mask stack in force. *)
Definition mrt_iteration (h : matrix C) (d : stack C) (k : nat)
  (wMRT : matrix C) : result (matrix C) :=
  hk <- get_row h k ;;
  dk <- get_slice d k ;;
  hd <- matmul_1d hk dk ;;
  let channel_vector := np_conj_1d (np_transpose_1d hd) in
  set_col wMRT k (div_scalar channel_vector (norm2 channel_vector)).

(** [mrt(h, d=None)], mrt.py.  [d = None] is the omitted argument. *)
Definition mrt (h : matrix C) (d : option (stack C)) : result (matrix C) :=
  let kr := fst (shape h) in
  let n := snd (shape h) in
  let d := match d with
           | None => np_tile (np_eye n) kr 1 1
           | Some d => d
           end in
  let wMRT := np_zeros (np_transpose_1d (shape h)) in
  for_range (seq 0 kr) (mrt_iteration h d) wMRT.

(** The body of the loop of [zfbf], zfbf.py lines 48-71. *)
Definition zfbf_iteration (h : matrix C) (d : stack C) (k : nat)
  (wZFBF : matrix C) : result (matrix C) :=
  dk <- get_slice d k ;;
  hd <- matmul h dk ;;
  let effective_channel := np_conj (np_transpose hd) in
  gram <- matmul (np_conj (np_transpose effective_channel)) effective_channel ;;
  x <- np_linalg_lstsq (np_transpose gram) (np_transpose effective_channel) ;;
  let channel_inversion := np_transpose x in
  ck <- get_col channel_inversion k ;;
  set_col wZFBF k (div_scalar ck (norm2 ck)).

(** [zfbf(h, d=None)], zfbf.py. *)
Definition zfbf (h : matrix C) (d : option (stack C)) : result (matrix C) :=
  let kr := fst (shape h) in
  let n := snd (shape h) in
  let d := match d with
           | None => np_tile (np_eye n) kr 1 1
           | Some d => d
           end in
  let wZFBF := np_zeros (np_transpose_1d (shape h)) in
  for_range (seq 0 kr) (zfbf_iteration h d) wZFBF.

(** The body of the loop of [slnr_max], slnr_max.py lines 55-75. *)
Definition slnr_max_iteration (h : matrix C) (eta : matrix C) (d : stack C)
  (k : nat) (w_slnr_max : matrix C) : result (matrix C) :=
  let n := snd (shape h) in
  dk <- get_slice d k ;;
  hd <- matmul h dk ;;
  let effective_channel := np_conj (np_transpose hd) in
  etak <- get_row eta k ;;
  reg <- broadcast2 cdiv (np_eye n) (as_row etak) ;;
  outer <- matmul effective_channel (np_conj (np_transpose effective_channel)) ;;
  a <- broadcast2 cadd reg outer ;;
  b <- get_col effective_channel k ;;
  projected_vector <- np_linalg_lstsq_1d a b ;;
  set_col w_slnr_max k
    (div_scalar projected_vector (norm2 projected_vector)).

(** [slnr_max(h, eta=None, d=None)], slnr_max.py. *)
Definition slnr_max (h : matrix C) (eta : option (matrix C))
  (d : option (stack C)) : result (matrix C) :=
  let kr := fst (shape h) in
  let n := snd (shape h) in
  let eta := match eta with
             | None => np_ones (kr, 1)
             | Some eta => eta
             end in
  let d := match d with
           | None => np_tile (np_eye n) kr 1 1
           | Some d => d
           end in
  let w_slnr_max := np_zeros (np_transpose_1d (shape h)) in
  for_range (seq 0 kr) (slnr_max_iteration h eta d) w_slnr_max.

(** The column [mrt] is meant to write for user [k]: the conjugate of the
    masked channel over its 2-norm. *)
Definition mrt_column (h : matrix C) (d : stack C) (k : nat) : vector :=
  div_scalar (np_conj_1d (masked_channel h d k))
    (norm2 (np_conj_1d (masked_channel h d k))).

End Beamforming.

(** ** Python values and calls *)

(** The values a caller passes to [brb_algorithm_cvx]; arrays are passed
    as nested lists. *)
#[warnings="-register-all"] Inductive pyval : Type :=
| PyNone
| PyBool (b : bool)
| PyInt (z : Z)
| PyFloat (q : Q)
| PyComplex (re im : Q)
| PyStr (s : string)
| PyTuple (items : list pyval)
| PyList (items : list pyval).

(** The items of a returned value: a tuple unpacks into its items, and
    [None] holds nothing. *)
Definition components (v : pyval) : list pyval :=
  match v with
  | PyTuple items => items
  | _ => []
  end.

Module Call.

(** A positional-or-keyword parameter, with its default when it has one. *)
Record param : Type := Param {
  pname : string;
  pdefault : option pyval
}.

Definition required (name : string) : param := Param name None.

Definition slots : Type := list (string * option pyval).

(** Positional arguments fill the parameters from the left; one argument
    too many is a [TypeError]. *)
Fixpoint bind_positional (ps : list param) (args : list pyval) : result slots :=
  match ps, args with
  | [], [] => Ok []
  | [], _ :: _ => Raise TypeError
  | p :: ps', [] =>
      rest <- bind_positional ps' [] ;;
      Ok ((pname p, None) :: rest)
  | p :: ps', a :: args' =>
      rest <- bind_positional ps' args' ;;
      Ok ((pname p, Some a) :: rest)
  end.

(** A keyword argument fills the parameter of its name; an unknown name
    or a parameter already filled is a [TypeError]. *)
Fixpoint bind_keyword (sl : slots) (name : string) (v : pyval) : result slots :=
  match sl with
  | [] => Raise TypeError
  | (n, s) :: rest =>
      if String.eqb n name then
        match s with
        | Some _ => Raise TypeError
        | None => Ok ((n, Some v) :: rest)
        end
      else
        rest' <- bind_keyword rest name v ;;
        Ok ((n, s) :: rest')
  end.

Fixpoint bind_keywords (sl : slots) (kwargs : list (string * pyval)) : result slots :=
  match kwargs with
  | [] => Ok sl
  | (name, v) :: kwargs' =>
      sl' <- bind_keyword sl name v ;;
      bind_keywords sl' kwargs'
  end.

(** A parameter left unfilled takes its default; without one the call is
    a [TypeError] (missing required argument). *)
Fixpoint fill_defaults (ps : list param) (sl : slots) : result (list (string * pyval)) :=
  match ps, sl with
  | p :: ps', (n, s) :: sl' =>
      v <- match s, pdefault p with
           | Some v, _ => Ok v
           | None, Some v => Ok v
           | None, None => Raise TypeError
           end ;;
      rest <- fill_defaults ps' sl' ;;
      Ok ((n, v) :: rest)
  | _, _ => Ok []
  end.

Definition bind_args (ps : list param) (args : list pyval)
  (kwargs : list (string * pyval)) : result (list (string * pyval)) :=
  sl <- bind_positional ps args ;;
  sl' <- bind_keywords sl kwargs ;;
  fill_defaults ps sl'.

End Call.

(** ** The Branch-Reduce-and-Bound entry point *)

(** What a run of the search does that its callers count: outer
    iterations and convex feasibility subproblems solved. *)
Inductive event : Type :=
| OuterIteration
| FeasibilityEvaluation.

Record run : Type := Run {
  events : list event;
  outcome : result pyval
}.

Local Open Scope string_scope.

(** The parameter list of [brb_algorithm_cvx], brb_algorithm_cvx.py
    lines 5-18: twelve parameters, none with a default. *)
Definition brb_parameters : list Call.param :=
  map Call.required
    ["H"; "D"; "Qsrt"; "q"; "boxes_lower_corners"; "boxer_upper_corners";
     "wights"; "delta"; "epsilon"; "max_interations";
     "max_func_evaluations"; "local_feasible"].

(** The body of [brb_algorithm_cvx], brb_algorithm_cvx.py lines 19-77: the
    docstring and [pass].  It runs no loop, solves no subproblem, and
    falls off its end, which returns [None]. *)
Definition brb_body (env : list (string * pyval)) : run :=
  Run [] (Ok PyNone).

(** A call of [brb_algorithm_cvx] with positional arguments [args] and
    keyword arguments [kwargs]: the arguments are bound to the
    parameters, then the body runs. *)
Definition brb_algorithm_cvx (args : list pyval)
  (kwargs : list (string * pyval)) : run :=
  match Call.bind_args brb_parameters args kwargs with
  | Ok env => brb_body env
  | Raise e => Run [] (Raise e)
  end.

Local Close Scope string_scope.

(** *** Reading the arguments and the result *)

Definition as_number (v : pyval) : option Q :=
  match v with
  | PyInt z => Some (inject_Z z)
  | PyFloat q => Some q
  | _ => None
  end.

Fixpoint as_numbers (vs : list pyval) : option (list Q) :=
  match vs with
  | [] => Some []
  | v :: vs' =>
      match as_number v, as_numbers vs' with
      | Some q, Some qs => Some (q :: qs)
      | _, _ => None
      end
  end.

(** A rate point or weight vector passed as a list of numbers; anything
    else reads as the empty vector. *)
Definition as_vector (v : pyval) : list Q :=
  match v with
  | PyList items =>
      match as_numbers items with
      | Some qs => qs
      | None => []
      end
  | _ => []
  end.

Definition arg (args : list pyval) (position : nat) : pyval :=
  nth position args PyNone.

(** The conditions the specification calls invalid input, on the arguments
    by position: [H] is argument 0, the corners 4 and 5, the weights 6. *)
Definition nonpositive_weight (args : list pyval) : bool :=
  existsb (fun w => Qle_bool w 0) (as_vector (arg args 6)).

Definition corners_unordered (args : list pyval) : bool :=
  existsb (fun lu => negb (Qle_bool (fst lu) (snd lu)))
    (combine (as_vector (arg args 4)) (as_vector (arg args 5))).

Definition negative_coordinate (args : list pyval) : bool :=
  existsb (fun x => negb (Qle_bool 0 x))
    (as_vector (arg args 4) ++ as_vector (arg args 5)).

Definition row_count (v : pyval) : nat :=
  match v with
  | PyList hrows => length hrows
  | _ => 0
  end.

Definition dimension_mismatch (args : list pyval) : bool :=
  let kr := row_count (arg args 0) in
  negb ((length (as_vector (arg args 4)) =? kr)
        && (length (as_vector (arg args 5)) =? kr)
        && (length (as_vector (arg args 6)) =? kr)).

Definition invalid_input (args : list pyval) : bool :=
  dimension_mismatch args || nonpositive_weight args
  || corners_unordered args || negative_coordinate args.

(** The docstring's OUTPUT lists five values in this order: bestFeasible,
    Woptimal, totalNbrOfEvaluations, bounds and (optional) boxes.  A
    result holds them when it unpacks into at least the first four. *)
Definition documented_outputs (v : pyval) : bool :=
  4 <=? length (components v).

Definition best_feasible (v : pyval) : option pyval :=
  nth_error (components v) 0.

(** *** A two-user instance *)

Definition py_vector (qs : list Q) : pyval := PyList (map PyFloat qs).

Definition py_eye2 : pyval :=
  PyList [py_vector [1%Q; 0%Q]; py_vector [0%Q; 1%Q]].

(** Two users, two antennas, orthogonal unit channels, one total power
    constraint; the box, weights, iteration budget and seed are left to
    the caller. *)
Definition two_user_call (lower upper weights : list Q) (max_iterations : Z)
  (seed : pyval) : list pyval :=
  [ PyList [PyList [PyComplex 1 0; PyComplex 0 0];
            PyList [PyComplex 0 0; PyComplex 1 0]];
    PyList [py_eye2; py_eye2];
    PyList [py_eye2];
    py_vector [1%Q];
    py_vector lower;
    py_vector upper;
    py_vector weights;
    PyFloat (1 # 10);
    PyFloat (1 # 1000);
    PyInt max_iterations;
    PyInt 1000;
    seed ].

Definition valid_call : list pyval :=
  two_user_call [0%Q; 0%Q] [1%Q; 1%Q] [1%Q; 1%Q] 100 (py_vector [0%Q; 0%Q]).

(** The same call with a negative weight, the corners swapped on the
    first axis and a negative rate coordinate. *)
Definition malformed_call : list pyval :=
  two_user_call [2%Q; (-1)%Q] [1%Q; 1%Q] [(-1)%Q; 1%Q] 100
    (py_vector [0%Q; 0%Q]).

Definition one_iteration_call : list pyval :=
  two_user_call [0%Q; 0%Q] [1%Q; 1%Q] [1%Q; 1%Q] 1
    (py_vector [(1 # 2)%Q; (1 # 4)%Q]).

(** ** Symbolic scalars *)

(** Scalars that record what is computed: each numpy operation builds the
    term that names it, and the least-squares solver always answers, with
    the entries of its solution left as terms.  A routine run on them
    shows which exception it raises or which operations fill its
    result. *)
#[warnings="-register-all"] Inductive sym : Type :=
| SZero
| SOne
| SVar (name : nat)
| SAdd (x y : sym)
| SMul (x y : sym)
| SDiv (x y : sym)
| SConj (x : sym)
| SNorm2 (v : list sym)
| SLstsq (a b : matrix sym) (i j : nat).

#[export] Instance sym_numeric : Numeric sym := {|
  c0 := SZero;
  c1 := SOne;
  cadd := SAdd;
  cmul := SMul;
  cdiv := SDiv;
  cconj := SConj;
  norm2 := SNorm2;
  lstsq_solve := fun a b => Some (fun i j => SLstsq a b i j)
|}.

(** Channel matrices with unknown entries: one user and one antenna, two
    users and two antennas, one user and two antennas. *)
Definition sym_h11 : matrix sym := Matrix 1 1 [[SVar 0]].

Definition sym_h22 : matrix sym :=
  Matrix 2 2 [[SVar 0; SVar 1]; [SVar 2; SVar 3]].

Definition sym_h12 : matrix sym := Matrix 1 2 [[SVar 0; SVar 1]].

(** A mask stack of shape [(2, 2, 2)] with unknown entries. *)
Definition sym_d222 : stack sym :=
  Stack 2 2 2 [[[SVar 10; SVar 11]; [SVar 12; SVar 13]];
               [[SVar 14; SVar 15]; [SVar 16; SVar 17]]].

(** A mask stack with a single slice, and one whose slices have three
    rows. *)
Definition sym_d122 : stack sym :=
  Stack 1 2 2 [[[SVar 10; SVar 11]; [SVar 12; SVar 13]]].

Definition sym_d232 : stack sym :=
  Stack 2 3 2 [[[SVar 10; SVar 11]; [SVar 12; SVar 13]; [SVar 14; SVar 15]];
               [[SVar 16; SVar 17]; [SVar 18; SVar 19]; [SVar 20; SVar 21]]].

(** An [eta] with one row, one of the documented shape for two users, and
    one with three items per row. *)
Definition sym_eta11 : matrix sym := Matrix 1 1 [[SVar 30]].


Definition sym_eta23 : matrix sym :=
  Matrix 2 3 [[SVar 30; SVar 31; SVar 32]; [SVar 33; SVar 34; SVar 35]].

(** A second channel matrix for two users, with the row of the first user
    of [sym_h22] and another row for the second, and a channel matrix
    without users. *)
Definition sym_h22_other : matrix sym :=
  Matrix 2 2 [[SVar 0; SVar 1]; [SVar 4; SVar 5]].

Definition sym_h02 : matrix sym := Matrix 0 2 [].

(** * Properties *)

(** ** Facts about the array operations *)

Section ArrayFacts.

Context {C : Type} `{Numeric C}.

Lemma nth_map_seq {A : Type} (f : nat -> A) (n i : nat) (dflt : A) :
  i < n -> nth i (map f (seq 0 n)) dflt = f i.
Proof.
  intros Hi.
  rewrite (nth_indep _ dflt (f 0)) by (rewrite length_map, length_seq; exact Hi).
  rewrite (map_nth f (seq 0 n) 0 i), seq_nth by exact Hi.
  reflexivity.
Qed.

Lemma entry_mk_matrix (r c : nat) (f : nat -> nat -> C) (i j : nat) :
  i < r -> j < c -> entry (mk_matrix r c f) i j = f i j.
Proof.
  intros Hi Hj; unfold entry, mk_matrix; simpl.
  rewrite (nth_map_seq (fun i => map (fun j => f i j) (seq 0 c))) by exact Hi.
  apply (nth_map_seq (fun j => f i j)); exact Hj.
Qed.

Lemma np_tile_eye (kr n : nat) :
  np_tile (np_eye n) kr 1 1 = identity_stack kr n.
Proof.
  unfold np_tile, identity_stack, np_eye; cbn [nrows ncols mk_matrix].
  rewrite Nat.mul_1_l, Nat.mul_1_r.
  unfold mk_stack; f_equal.
  apply map_ext; intros k.
  apply map_ext_in; intros i Hi; apply in_seq in Hi.
  apply map_ext_in; intros j Hj; apply in_seq in Hj.
  rewrite !Nat.mod_small by lia.
  apply (entry_mk_matrix n n (fun i j => if i =? j then c1 else c0)); lia.
Qed.

Lemma np_ones_column (kr : nat) : np_ones (kr, 1) = ones_column kr.
Proof. reflexivity. Qed.

Lemma broadcast_dim_refl (n : nat) : broadcast_dim n n = Some n.
Proof. unfold broadcast_dim; rewrite Nat.eqb_refl; reflexivity. Qed.

Lemma broadcast_dim_one (n : nat) : broadcast_dim n 1 = Some n.
Proof.
  unfold broadcast_dim.
  destruct (n =? 1) eqn:Hn; [reflexivity|]; reflexivity.
Qed.

End ArrayFacts.

(** ** The entry point [brb_algorithm_cvx] *)

Section EntryPoint.

(** A call with twelve positional arguments and no keyword binds every
    parameter, so the body runs. *)
Lemma brb_twelve_arguments (args : list pyval) :
  length args = 12 ->
  brb_algorithm_cvx args [] = Run [] (Ok PyNone).
Proof.
  intros Hlen.
  do 12 (destruct args as [|? args]; [discriminate Hlen|]).
  destruct args; [reflexivity | discriminate Hlen].
Qed.

(** A call with fewer than twelve positional arguments and no keyword
    leaves a parameter without a value. *)
Lemma brb_missing_argument (args : list pyval) :
  length args < 12 ->
  brb_algorithm_cvx args [] = Run [] (Raise TypeError).
Proof.
  intros Hlen.
  do 12 (destruct args as [|? args]; [reflexivity|]).
  simpl in Hlen; lia.
Qed.

(** A call with more than twelve positional arguments has one too many. *)
Lemma brb_extra_argument (args : list pyval) (kwargs : list (string * pyval)) :
  12 < length args ->
  brb_algorithm_cvx args kwargs = Run [] (Raise TypeError).
Proof.
  intros Hlen.
  do 12 (destruct args as [|? args]; [simpl in Hlen; lia|]).
  destruct args; [simpl in Hlen; lia | reflexivity].
Qed.

(** Whatever the arguments, a run solves no subproblem and performs no
    outer iteration. *)
Lemma brb_no_events (args : list pyval) (kwargs : list (string * pyval)) :
  events (brb_algorithm_cvx args kwargs) = [].
Proof.
  unfold brb_algorithm_cvx.
  destruct (Call.bind_args brb_parameters args kwargs); reflexivity.
Qed.

(** Whatever the arguments, a run that returns returns [None]. *)
Lemma brb_returns_none (args : list pyval) (kwargs : list (string * pyval))
  (v : pyval) :
  outcome (brb_algorithm_cvx args kwargs) = Ok v -> v = PyNone.
Proof.
  unfold brb_algorithm_cvx.
  destruct (Call.bind_args brb_parameters args kwargs); simpl; congruence.
Qed.

End EntryPoint.

(** C1.  The solve operation is meant to return bestFeasible, Woptimal,
    the evaluation counts, the bounds and the box snapshots.  On the valid
    two-user call the code returns [None], which holds none of the
    documented outputs, after no iteration and no evaluation. *)
Theorem brb_valid_call_returns_none :
  invalid_input valid_call = false /\
  brb_algorithm_cvx valid_call [] = Run [] (Ok PyNone) /\
  documented_outputs PyNone = false /\
  best_feasible PyNone = None.
Proof. repeat split. Qed.

(** C4, as the specification states it, fails: the malformed call (a
    negative weight, a lower corner above the upper corner, a negative
    rate coordinate) is invalid input, and the call raises nothing. *)
Lemma malformed_call_not_rejected :
  ~ (invalid_input malformed_call = true ->
     raises (outcome (brb_algorithm_cvx malformed_call []))).
Proof.
  intros Hclaim.
  destruct (Hclaim eq_refl) as [e He].
  discriminate He.
Qed.

(** C4, amended.  For every call that supplies the twelve arguments,
    malformed or not, the solve operation validates nothing and raises no
    error, and it performs no iteration and no feasibility evaluation on
    that input. *)
Theorem brb_performs_no_validation (args : list pyval) :
  length args = 12 ->
  ~ raises (outcome (brb_algorithm_cvx args [])) /\
  events (brb_algorithm_cvx args []) = [].
Proof.
  intros Hlen; rewrite (brb_twelve_arguments args Hlen); split;
    [intros [e He]; discriminate He | reflexivity].
Qed.

Lemma brb_performs_no_validation_witness :
  invalid_input malformed_call = true /\
  ~ raises (outcome (brb_algorithm_cvx malformed_call [])) /\
  events (brb_algorithm_cvx malformed_call []) = [].
Proof.
  split; [reflexivity|].
  apply (brb_performs_no_validation malformed_call); reflexivity.
Defined.

(** C6.  With maxIterations equal to 1 the solve operation is meant to
    return the seed, or the zero point when no seed is supplied, as
    bestFeasible and to raise nothing.  On the valid two-user call with
    [max_interations = 1] and the seed (1/2, 1/4) the code returns [None],
    which holds no bestFeasible; and on the same call without the seed it
    raises [TypeError]. *)
Theorem brb_one_iteration_call_returns_none :
  invalid_input one_iteration_call = false /\
  arg one_iteration_call 9 = PyInt 1 /\
  outcome (brb_algorithm_cvx one_iteration_call []) = Ok PyNone /\
  best_feasible PyNone = None /\
  outcome (brb_algorithm_cvx (removelast one_iteration_call) [])
    = Raise TypeError.
Proof. repeat split. Qed.

(** C7.  The docstring marks localFeasible, problemMode and saveBoxes as
    optional.  The code rejects the call that omits localFeasible, and has
    no parameter to receive problemMode or saveBoxes, by keyword or by
    position. *)
Theorem brb_optional_arguments_rejected :
  outcome (brb_algorithm_cvx (removelast valid_call) []) = Raise TypeError /\
  outcome (brb_algorithm_cvx valid_call [("problemMode"%string, PyInt 1)])
    = Raise TypeError /\
  outcome (brb_algorithm_cvx valid_call [("saveBoxes"%string, PyBool true)])
    = Raise TypeError /\
  outcome (brb_algorithm_cvx (valid_call ++ [PyInt 1; PyBool true]) [])
    = Raise TypeError.
Proof. repeat split. Qed.

(** The binder itself is not at fault: with all twelve parameters given,
    the last one by keyword, the call is accepted. *)
Example brb_keyword_call_accepted :
  outcome (brb_algorithm_cvx (removelast valid_call)
             [("local_feasible"%string, py_vector [0%Q; 0%Q])]) = Ok PyNone.
Proof. reflexivity. Qed.

(** ** Loops and column assignment *)

Section LoopFacts.

Context {C : Type} `{Numeric C}.

Lemma bind_ok {A B : Type} (m : result A) (f : A -> result B) (b : B) :
  bind m f = Ok b -> exists a, m = Ok a /\ f a = Ok b.
Proof. destruct m as [a|e]; simpl; [eauto | discriminate]. Qed.

(** A property of the loop variable that every iteration keeps holds when
    the loop ends. *)
Lemma for_range_invariant {W : Type} (P : W -> Prop) (ks : list nat)
  (body : nat -> W -> result W) (w0 w : W) :
  P w0 ->
  (forall k u u', In k ks -> P u -> body k u = Ok u' -> P u') ->
  for_range ks body w0 = Ok w -> P w.
Proof.
  revert w0; induction ks as [|k ks IH]; intros w0 H0 Hstep Hrun; simpl in Hrun.
  - injection Hrun as <-; exact H0.
  - apply bind_ok in Hrun; destruct Hrun as [w1 [Hk Hrest]].
    apply (IH w1); [| |exact Hrest].
    + apply (Hstep k w0 w1); [left; reflexivity | exact H0 | exact Hk].
    + intros k' u u' Hin; apply Hstep; right; exact Hin.
Qed.

Lemma set_col_shape (w w' : matrix C) (k : nat) (v : vector) :
  set_col w k v = Ok w' -> shape w' = shape w.
Proof.
  unfold set_col.
  destruct (k <? ncols w); [|discriminate].
  destruct (length v =? nrows w); [intros [= <-]; reflexivity|].
  destruct (length v =? 1); [intros [= <-]; reflexivity | discriminate].
Qed.

(** What [w[:, k] = v] does when [v] has the length of a column. *)
Lemma set_col_exact (w : matrix C) (k : nat) (v : vector) :
  k < ncols w -> length v = nrows w ->
  set_col w k v
  = Ok (mk_matrix (nrows w) (ncols w)
          (fun i j => if j =? k then nth i v c0 else entry w i j)).
Proof.
  intros Hk Hv; unfold set_col.
  apply Nat.ltb_lt in Hk; rewrite Hk.
  apply Nat.eqb_eq in Hv; rewrite Hv; reflexivity.
Qed.

(** When it fails. *)
Lemma set_col_index_error (w : matrix C) (k : nat) (v : vector) :
  ncols w <= k -> set_col w k v = Raise IndexError.
Proof.
  intros Hk; unfold set_col.
  apply Nat.ltb_ge in Hk; rewrite Hk; reflexivity.
Qed.

Lemma set_col_value_error (w : matrix C) (k : nat) (v : vector) :
  k < ncols w -> length v <> nrows w -> length v <> 1 ->
  set_col w k v = Raise ValueError.
Proof.
  intros Hk Hv Hv1; unfold set_col.
  apply Nat.ltb_lt in Hk; rewrite Hk.
  apply Nat.eqb_neq in Hv; rewrite Hv.
  apply Nat.eqb_neq in Hv1; rewrite Hv1; reflexivity.
Qed.

(** A loop that assigns the column [col k] at each [k] of [ks] to an
    [n x n] array: it ends, and each assigned column holds what was
    assigned. *)
Lemma for_range_set_col (col : nat -> vector) (n : nat) (ks : list nat)
  (body : nat -> matrix C -> result (matrix C)) (w0 : matrix C) :
  (forall k u, In k ks -> body k u = set_col u k (col k)) ->
  (forall k, In k ks -> k < n /\ length (col k) = n) ->
  shape w0 = (n, n) ->
  exists w,
    for_range ks body w0 = Ok w /\ shape w = (n, n) /\
    forall i j, i < n -> j < n ->
      entry w i j
      = if existsb (Nat.eqb j) ks then nth i (col j) c0 else entry w0 i j.
Proof.
  revert w0; induction ks as [|k ks IH]; intros w0 Hbody Hcol Hshape.
  - exists w0; split; [reflexivity|]; split; [exact Hshape|].
    intros i j _ _; reflexivity.
  - injection Hshape as Hr Hc.
    destruct (Hcol k (or_introl eq_refl)) as [Hk Hlen].
    destruct (IH (mk_matrix n n
                    (fun i j => if j =? k then nth i (col k) c0
                                else entry w0 i j))) as [w [Hrun [Hw Hent]]].
    + intros k' u Hin; apply Hbody; right; exact Hin.
    + intros k' Hin; apply Hcol; right; exact Hin.
    + reflexivity.
    + exists w; split; [|split; [exact Hw|]].
      * simpl; rewrite (Hbody k w0 (or_introl eq_refl)).
        rewrite set_col_exact by lia.
        rewrite Hr, Hc; simpl; exact Hrun.
      * intros i j Hi Hj; rewrite (Hent i j Hi Hj); simpl.
        rewrite entry_mk_matrix by assumption.
        destruct (existsb (Nat.eqb j) ks) eqn:Hex.
        -- rewrite orb_true_r; reflexivity.
        -- rewrite orb_false_r.
           destruct (j =? k) eqn:Hjk; [|reflexivity].
           apply Nat.eqb_eq in Hjk; subst j; reflexivity.
Qed.

(** A loop over the users that assigns a vector of [n] items to column
    [k] of a [kr x n] array cannot end when [kr] and [n] differ. *)
Lemma column_loop_nonsquare_raises (kr n : nat)
  (body : nat -> matrix C -> result (matrix C)) (w0 : matrix C) :
  shape w0 = (kr, n) -> 0 < kr -> kr <> n ->
  (forall k u, k < kr ->
     raises (body k u) \/
     exists v, length v = n /\ body k u = set_col u k v) ->
  raises (for_range (seq 0 kr) body w0).
Proof.
  intros Hshape Hpos Hne Hbody.
  injection Hshape as Hr Hc.
  destruct kr as [|kr]; [lia|]; cbn [seq for_range].
  destruct (Hbody 0 w0 ltac:(lia)) as [[e He]|[v [Hv Hset]]].
  { exists e; rewrite He; reflexivity. }
  rewrite Hset.
  destruct n as [|[|n]].
  - (* no antenna: column 0 does not exist *)
    exists IndexError.
    rewrite set_col_index_error by lia; reflexivity.
  - (* one antenna: column 0 is broadcast, column 1 does not exist *)
    destruct kr as [|kr]; [congruence|]; cbn [seq for_range].
    destruct (set_col w0 0 v) as [w1|e] eqn:Hw1; cbn [bind];
      [|exists e; reflexivity].
    apply set_col_shape in Hw1; injection Hw1 as _ Hc1.
    destruct (Hbody 1 w1 ltac:(lia)) as [[e He]|[v1 [_ Hset1]]].
    { exists e; rewrite He; reflexivity. }
    exists IndexError; rewrite Hset1.
    rewrite set_col_index_error by lia; reflexivity.
  - (* several antennas: the vector is too long or too short for a column *)
    exists ValueError.
    rewrite set_col_value_error by lia; reflexivity.
Qed.

End LoopFacts.

(** ** What the routines return *)

Section ReturnedArrays.

Context {C : Type} `{Numeric C}.

Ltac split_binds :=
  repeat match goal with
         | Hb : bind _ _ = Ok _ |- _ =>
             apply bind_ok in Hb; destruct Hb as [? [? Hb]]
         end.

(** The array a routine returns has the shape of [h], as allocated. *)
Lemma mrt_shape (h : matrix C) (d : option (stack C)) (w : matrix C) :
  mrt h d = Ok w -> shape w = shape h.
Proof.
  unfold mrt.
  apply (for_range_invariant (fun u => shape u = shape h)); [reflexivity|].
  intros k u u' _ Hu Hk; unfold mrt_iteration in Hk; split_binds.
  rewrite (set_col_shape _ _ _ _ Hk); exact Hu.
Qed.

Lemma zfbf_shape (h : matrix C) (d : option (stack C)) (w : matrix C) :
  zfbf h d = Ok w -> shape w = shape h.
Proof.
  unfold zfbf.
  apply (for_range_invariant (fun u => shape u = shape h)); [reflexivity|].
  intros k u u' _ Hu Hk; unfold zfbf_iteration in Hk; split_binds.
  rewrite (set_col_shape _ _ _ _ Hk); exact Hu.
Qed.

Lemma slnr_max_shape (h : matrix C) (eta : option (matrix C))
  (d : option (stack C)) (w : matrix C) :
  slnr_max h eta d = Ok w -> shape w = shape h.
Proof.
  unfold slnr_max.
  apply (for_range_invariant (fun u => shape u = shape h)); [reflexivity|].
  intros k u u' _ Hu Hk; unfold slnr_max_iteration in Hk; split_binds.
  rewrite (set_col_shape _ _ _ _ Hk); exact Hu.
Qed.

(** So a returned array has the documented shape [(Kt*Nt, Kr)] only for
    a square [h]. *)
Corollary mrt_documented_shape_square (h : matrix C) (d : option (stack C))
  (w : matrix C) :
  mrt h d = Ok w -> shape w = (ncols h, nrows h) -> nrows h = ncols h.
Proof.
  intros Hw Hdoc; rewrite (mrt_shape h d w Hw) in Hdoc.
  injection Hdoc as Hr _; exact Hr.
Qed.

Lemma length_mrt_column (h : matrix C) (d : stack C) (k : nat) :
  length (mrt_column h d k) = ncols h.
Proof.
  unfold mrt_column, div_scalar, np_conj_1d, masked_channel.
  rewrite !length_map, length_seq; reflexivity.
Qed.

(** With a mask stack of the documented shape, iteration [k] assigns the
    normalised conjugate masked channel to column [k]. *)
Lemma mrt_iteration_assigns (h : matrix C) (d : stack C) (k : nat)
  (w : matrix C) :
  k < nrows h -> k < depth d -> srows d = ncols h -> scols d = ncols h ->
  mrt_iteration h d k w = set_col w k (mrt_column h d k).
Proof.
  intros Hk Hd Hsr Hsc.
  unfold mrt_iteration, get_row, get_slice.
  apply Nat.ltb_lt in Hk; rewrite Hk.
  apply Nat.ltb_lt in Hd; rewrite Hd.
  cbn [bind]; unfold matmul_1d; cbn [nrows ncols].
  rewrite length_map, length_seq, Hsr, Hsc, Nat.eqb_refl; cbn [bind].
  unfold mrt_column, np_transpose_1d.
  assert (Hchan :
    map (fun j =>
           sum (map (fun i =>
                       cmul (nth i (map (fun j0 => entry h k j0)
                                      (seq 0 (ncols h))) c0)
                         (entry (Matrix (ncols h) (ncols h)
                                   (nth k (slices d) [])) i j))
                  (seq 0 (ncols h))))
      (seq 0 (ncols h))
    = masked_channel h d k).
  { unfold masked_channel.
    apply map_ext; intros j; f_equal.
    apply map_ext_in; intros i Hi; apply in_seq in Hi.
    rewrite (nth_map_seq (fun j0 => entry h k j0)) by lia.
    reflexivity. }
  rewrite Hchan; reflexivity.
Qed.

(** For a channel matrix that is not square, with at least one user and a
    mask stack of the documented shape, [mrt] raises. *)
Lemma mrt_nonsquare_raises (h : matrix C) (d : stack C) :
  0 < nrows h -> nrows h <> ncols h ->
  depth d = nrows h -> srows d = ncols h -> scols d = ncols h ->
  raises (mrt h (Some d)).
Proof.
  intros Hpos Hne Hd Hsr Hsc; unfold mrt.
  apply (column_loop_nonsquare_raises (nrows h) (ncols h));
    [reflexivity | exact Hpos | exact Hne |].
  intros k u Hk; right; exists (mrt_column h d k).
  split; [apply length_mrt_column | apply mrt_iteration_assigns; lia].
Qed.

(** For a square channel matrix and a mask stack of the documented shape,
    [mrt] returns, and column [k] of the array is the conjugate of the
    masked channel of user [k] over its 2-norm. *)
Lemma mrt_square_columns (h : matrix C) (d : stack C) :
  nrows h = ncols h ->
  depth d = nrows h -> srows d = ncols h -> scols d = ncols h ->
  exists w,
    mrt h (Some d) = Ok w /\ shape w = shape h /\
    forall i k, i < ncols h -> k < nrows h ->
      entry w i k = nth i (mrt_column h d k) c0.
Proof.
  intros Hsq Hd Hsr Hsc.
  unfold mrt, np_transpose_1d, shape; cbn [fst snd]; rewrite Hsq.
  destruct (for_range_set_col (mrt_column h d) (ncols h) (seq 0 (ncols h))
              (mrt_iteration h d) (np_zeros (ncols h, ncols h)))
    as [w [Hrun [Hw Hent]]].
  - intros k u Hin; apply in_seq in Hin.
    apply mrt_iteration_assigns; lia.
  - intros k Hin; apply in_seq in Hin.
    split; [lia | apply length_mrt_column].
  - reflexivity.
  - exists w; split; [exact Hrun|]; split; [exact Hw|].
    intros i k Hi Hk; rewrite (Hent i k) by lia.
    replace (existsb (Nat.eqb k) (seq 0 (ncols h))) with true; [reflexivity|].
    symmetry; apply existsb_exists; exists k; split.
    + apply in_seq; lia.
    + apply Nat.eqb_refl.
Qed.


(** With arguments of the documented shapes, an iteration of [zfbf] or of
    [slnr_max] either raises (the least-squares solver failed, or [eta]
    has no row [k]) or assigns a vector of [Kt*Nt] items to column [k]. *)
Lemma zfbf_iteration_assigns (h : matrix C) (d : stack C) (k : nat)
  (w : matrix C) :
  k < nrows h -> k < depth d -> srows d = ncols h -> scols d = ncols h ->
  raises (zfbf_iteration h d k w) \/
  exists v, length v = ncols h /\ zfbf_iteration h d k w = set_col w k v.
Proof.
  intros Hk Hd Hsr Hsc.
  remember (zfbf_iteration h d k w) as r eqn:Hr.
  unfold zfbf_iteration, get_slice in Hr.
  apply Nat.ltb_lt in Hd; rewrite Hd in Hr; cbn [bind] in Hr.
  unfold matmul at 1 in Hr; cbn [nrows ncols] in Hr.
  rewrite Hsr, Nat.eqb_refl in Hr; cbn [bind] in Hr.
  unfold matmul in Hr; cbn [nrows ncols np_conj np_transpose mk_matrix] in Hr.
  rewrite Nat.eqb_refl in Hr; cbn [bind] in Hr.
  unfold np_linalg_lstsq in Hr.
  cbn [nrows ncols np_conj np_transpose mk_matrix] in Hr.
  rewrite Nat.eqb_refl in Hr.
  match type of Hr with
  | context [lstsq_solve ?a ?b] => destruct (lstsq_solve a b) as [x|]
  end; cbn [bind] in Hr; [|left; exists LinAlgError; exact Hr].
  right. unfold get_col in Hr.
  cbn [nrows ncols np_conj np_transpose mk_matrix] in Hr.
  apply Nat.ltb_lt in Hk; rewrite Hk in Hr; cbn [bind] in Hr.
  eexists; split; [|exact Hr].
  unfold div_scalar; rewrite !length_map, length_seq; exact Hsc.
Qed.

Lemma slnr_max_iteration_assigns (h eta : matrix C) (d : stack C) (k : nat)
  (w : matrix C) :
  k < nrows h -> k < depth d -> srows d = ncols h -> scols d = ncols h ->
  ncols eta = 1 ->
  raises (slnr_max_iteration h eta d k w) \/
  exists v, length v = ncols h /\ slnr_max_iteration h eta d k w = set_col w k v.
Proof.
  intros Hk Hd Hsr Hsc Heta.
  remember (slnr_max_iteration h eta d k w) as r eqn:Hr.
  unfold slnr_max_iteration, get_slice in Hr.
  apply Nat.ltb_lt in Hd; rewrite Hd in Hr; cbn [bind] in Hr.
  unfold matmul at 1 in Hr; cbn [nrows ncols] in Hr.
  rewrite Hsr, Nat.eqb_refl in Hr; cbn [bind] in Hr.
  unfold get_row in Hr.
  destruct (k <? nrows eta); cbn [bind] in Hr;
    [|left; exists IndexError; exact Hr].
  unfold broadcast2 at 1 in Hr.
  cbn [nrows ncols as_row np_eye mk_matrix shape snd] in Hr.
  rewrite length_map, length_seq, Heta, broadcast_dim_one in Hr.
  cbn [bind] in Hr.
  unfold matmul in Hr.
  cbn [nrows ncols np_conj np_transpose mk_matrix] in Hr.
  rewrite Nat.eqb_refl in Hr; cbn [bind] in Hr.
  unfold broadcast2 in Hr; cbn [nrows ncols mk_matrix] in Hr.
  rewrite Hsc, broadcast_dim_refl in Hr; cbn [bind] in Hr.
  unfold get_col in Hr.
  cbn [nrows ncols np_conj np_transpose mk_matrix] in Hr.
  apply Nat.ltb_lt in Hk; rewrite Hk in Hr; cbn [bind] in Hr.
  unfold np_linalg_lstsq_1d, np_linalg_lstsq in Hr.
  cbn [nrows ncols np_conj np_transpose mk_matrix as_row] in Hr.
  rewrite length_map, length_seq, Nat.eqb_refl in Hr.
  match type of Hr with
  | context [lstsq_solve ?a ?b] => destruct (lstsq_solve a b) as [x|]
  end; cbn [bind] in Hr; [|left; exists LinAlgError; exact Hr].
  right. unfold get_col in Hr; cbn [nrows ncols mk_matrix] in Hr.
  change (0 <? 1) with true in Hr; cbn [bind] in Hr.
  eexists; split; [|exact Hr].
  unfold div_scalar; rewrite !length_map, length_seq; reflexivity.
Qed.


(** For a channel matrix that is not square, with at least one user and
    arguments of the documented shapes, each routine raises. *)
Lemma zfbf_nonsquare_raises (h : matrix C) (d : stack C) :
  0 < nrows h -> nrows h <> ncols h ->
  depth d = nrows h -> srows d = ncols h -> scols d = ncols h ->
  raises (zfbf h (Some d)).
Proof.
  intros Hpos Hne Hd Hsr Hsc; unfold zfbf.
  apply (column_loop_nonsquare_raises (nrows h) (ncols h));
    [reflexivity | exact Hpos | exact Hne |].
  intros k u Hk; apply zfbf_iteration_assigns; lia.
Qed.

Lemma slnr_max_nonsquare_raises (h eta : matrix C) (d : stack C) :
  0 < nrows h -> nrows h <> ncols h ->
  depth d = nrows h -> srows d = ncols h -> scols d = ncols h ->
  ncols eta = 1 ->
  raises (slnr_max h (Some eta) (Some d)).
Proof.
  intros Hpos Hne Hd Hsr Hsc Heta; unfold slnr_max.
  apply (column_loop_nonsquare_raises (nrows h) (ncols h));
    [reflexivity | exact Hpos | exact Hne |].
  intros k u Hk; apply slnr_max_iteration_assigns; lia.
Qed.
(** The same with the arguments omitted: the defaults have the
    documented shapes. *)
Lemma nonsquare_raises_by_default (h : matrix C) :
  0 < nrows h -> nrows h <> ncols h ->
  raises (mrt h None) /\ raises (zfbf h None) /\ raises (slnr_max h None None).
Proof.
  intros Hpos Hne.
  change (mrt h None)
    with (mrt h (Some (np_tile (np_eye (ncols h)) (nrows h) 1 1))).
  change (zfbf h None)
    with (zfbf h (Some (np_tile (np_eye (ncols h)) (nrows h) 1 1))).
  change (slnr_max h None None)
    with (slnr_max h (Some (np_ones (nrows h, 1)))
            (Some (np_tile (np_eye (ncols h)) (nrows h) 1 1))).
  rewrite np_tile_eye.
  split; [|split].
  - apply mrt_nonsquare_raises; auto.
  - apply zfbf_nonsquare_raises; auto.
  - apply slnr_max_nonsquare_raises; auto.
Qed.

End ReturnedArrays.

(** ** The beamforming routines *)

Section BeamformingFacts.

Context {C : Type} `{Numeric C}.

(** C9.  For every channel matrix [h], each of [mrt], [zfbf] and
    [slnr_max] called without the mask [d] gives what it gives with [d]
    the stack of [Kr] identity matrices, and [slnr_max] called without
    [eta] gives what it gives with [eta] the [Kr x 1] column of ones. *)
Theorem omitted_arguments_default (h : matrix C) (eta : option (matrix C))
  (d : option (stack C)) :
  mrt h None = mrt h (Some (identity_stack (nrows h) (ncols h))) /\
  zfbf h None = zfbf h (Some (identity_stack (nrows h) (ncols h))) /\
  slnr_max h eta None
    = slnr_max h eta (Some (identity_stack (nrows h) (ncols h))) /\
  slnr_max h None d = slnr_max h (Some (ones_column (nrows h))) d.
Proof.
  change (mrt h None)
    with (mrt h (Some (np_tile (np_eye (ncols h)) (nrows h) 1 1))).
  change (zfbf h None)
    with (zfbf h (Some (np_tile (np_eye (ncols h)) (nrows h) 1 1))).
  change (slnr_max h eta None)
    with (slnr_max h eta (Some (np_tile (np_eye (ncols h)) (nrows h) 1 1))).
  change (slnr_max h None d)
    with (slnr_max h (Some (np_ones (nrows h, 1))) d).
  rewrite np_tile_eye, np_ones_column.
  repeat split.
Qed.

(** C10.  Each routine is meant to return a [Kt*Nt x Kr] array.  For one
    user and two antennas ([h] of shape [(1, 2)]) none of them returns:
    the result array is allocated with the shape of [h], not its
    transpose, and the first column assignment cannot be broadcast. *)
Theorem one_user_two_antennas_rejected (a b : C) :
  mrt (Matrix 1 2 [[a; b]]) None = Raise ValueError /\
  raises (zfbf (Matrix 1 2 [[a; b]]) None) /\
  raises (slnr_max (Matrix 1 2 [[a; b]]) None None).
Proof.
  split; [reflexivity|]; split.
  - unfold zfbf, zfbf_iteration, np_linalg_lstsq; cbn -[lstsq_solve].
    match goal with
    | |- context [lstsq_solve ?x ?y] => destruct (lstsq_solve x y)
    end; eexists; reflexivity.
  - unfold slnr_max, slnr_max_iteration, np_linalg_lstsq_1d, np_linalg_lstsq;
    cbn -[lstsq_solve].
    match goal with
    | |- context [lstsq_solve ?x ?y] => destruct (lstsq_solve x y)
    end; eexists; reflexivity.
Qed.

(** C8.  Column [k] of the array [mrt] returns is meant to be the
    normalised conjugate masked channel of user [k].  For one user, two
    antennas and any [2 x 2] mask, [mrt] returns no array at all. *)
Theorem mrt_one_user_two_antennas_no_column (a b : C) (mask : list (list C)) :
  mrt (Matrix 1 2 [[a; b]]) (Some (Stack 1 2 2 [mask])) = Raise ValueError.
Proof. reflexivity. Qed.

End BeamformingFacts.

(** * Further properties of the routines *)

(** ** Arguments of the wrong size *)

Section WrongSizes.

Context {C : Type} `{Numeric C}.

(** An iteration that raises whatever the loop variable holds ends the
    loop with an exception, its own or an earlier one. *)
Lemma for_range_raises_at {W : Type} (ks : list nat) (k : nat)
  (body : nat -> W -> result W) (w0 : W) :
  In k ks -> (forall u, raises (body k u)) ->
  raises (for_range ks body w0).
Proof.
  intros Hin Hk; revert w0.
  induction ks as [|k' ks IH]; intros w0; [contradiction|].
  simpl; destruct (body k' w0) as [w1|e] eqn:Hb; simpl.
  - destruct Hin as [->|Hin].
    + destruct (Hk w0) as [e He]; congruence.
    + apply IH; exact Hin.
  - exists e; reflexivity.
Qed.

Lemma get_slice_out_of_range (d : stack C) (k : nat) :
  depth d <= k -> get_slice d k = Raise IndexError.
Proof.
  intros Hk; unfold get_slice.
  apply Nat.ltb_ge in Hk; rewrite Hk; reflexivity.
Qed.

Lemma get_row_out_of_range (m : matrix C) (k : nat) :
  nrows m <= k -> get_row m k = Raise IndexError.
Proof.
  intros Hk; unfold get_row.
  apply Nat.ltb_ge in Hk; rewrite Hk; reflexivity.
Qed.

Lemma for_range_app {W : Type} (ks ks' : list nat)
  (body : nat -> W -> result W) (w : W) :
  for_range (ks ++ ks') body w
  = (w' <- for_range ks body w ;; for_range ks' body w').
Proof.
  revert w; induction ks as [|k ks IH]; intros w; simpl; [reflexivity|].
  destruct (body k w); simpl; [apply IH | reflexivity].
Qed.

(** A loop over [range(0, kr)] whose iteration [k] raises [e] whatever the
    loop variable holds is the loop over [range(0, k)] followed by that
    exception. *)
Lemma for_range_stops_at {W : Type} (kr k : nat)
  (body : nat -> W -> result W) (w0 : W) (e : exn) :
  k < kr -> (forall u, body k u = Raise e) ->
  for_range (seq 0 kr) body w0
  = (_ <- for_range (seq 0 k) body w0 ;; Raise e).
Proof.
  intros Hk Hbody.
  replace kr with (k + S (kr - S k)) by lia.
  rewrite seq_app, for_range_app; cbn [seq for_range Nat.add].
  destruct (for_range (seq 0 k) body w0) as [w|e']; cbn [bind];
    [rewrite Hbody|]; reflexivity.
Qed.

(** A mask stack with fewer slices than [h] has users: the users that
    have a slice are processed, and if none of them fails, [d[k, :, :]]
    fails with [IndexError] at the first user without a slice. *)
Theorem mask_stack_too_shallow (h : matrix C) (d : stack C)
  (eta : option (matrix C)) :
  depth d < nrows h ->
  let eta' := match eta with
              | None => np_ones (nrows h, 1)
              | Some eta => eta
              end in
  mrt h (Some d)
  = (_ <- for_range (seq 0 (depth d)) (mrt_iteration h d)
            (np_zeros (shape h)) ;;
     Raise IndexError) /\
  zfbf h (Some d)
  = (_ <- for_range (seq 0 (depth d)) (zfbf_iteration h d)
            (np_zeros (shape h)) ;;
     Raise IndexError) /\
  slnr_max h eta (Some d)
  = (_ <- for_range (seq 0 (depth d)) (slnr_max_iteration h eta' d)
            (np_zeros (shape h)) ;;
     Raise IndexError).
Proof.
  intros Hd eta'.
  split; [|split].
  - unfold mrt; apply for_range_stops_at; [exact Hd|].
    intros u; unfold mrt_iteration, get_row.
    apply Nat.ltb_lt in Hd; rewrite Hd; cbn [bind].
    rewrite get_slice_out_of_range by lia; reflexivity.
  - unfold zfbf; apply for_range_stops_at; [exact Hd|].
    intros u; unfold zfbf_iteration.
    rewrite get_slice_out_of_range by lia; reflexivity.
  - unfold slnr_max; apply for_range_stops_at; [exact Hd|].
    intros u; unfold slnr_max_iteration.
    rewrite get_slice_out_of_range by lia; reflexivity.
Qed.

(** A mask whose slices do not have one row per antenna: the first
    product [h . d[0]] cannot be formed, and the call is a [ValueError]. *)
Theorem mask_rows_mismatch (h : matrix C) (d : stack C)
  (eta : option (matrix C)) :
  0 < nrows h -> 0 < depth d -> srows d <> ncols h ->
  mrt h (Some d) = Raise ValueError /\
  zfbf h (Some d) = Raise ValueError /\
  slnr_max h eta (Some d) = Raise ValueError.
Proof.
  intros Hkr Hd Hsr.
  assert (Hslice : get_slice d 0
                   = Ok (Matrix (srows d) (scols d) (nth 0 (slices d) []))).
  { unfold get_slice; apply Nat.ltb_lt in Hd; rewrite Hd; reflexivity. }
  assert (Hmm : forall m, nrows m = srows d -> matmul h m = Raise ValueError).
  { intros m Hm; unfold matmul; rewrite Hm.
    apply not_eq_sym, Nat.eqb_neq in Hsr; rewrite Hsr; reflexivity. }
  unfold mrt, zfbf, slnr_max; cbn [shape fst snd].
  destruct (nrows h) as [|kr] eqn:Hrows; [lia|]; cbn [seq for_range].
  split; [|split].
  - unfold mrt_iteration, get_row; rewrite Hrows; cbn [Nat.ltb Nat.leb bind].
    rewrite Hslice; cbn [bind]; unfold matmul_1d; cbn [nrows].
    rewrite length_map, length_seq.
    apply not_eq_sym, Nat.eqb_neq in Hsr; rewrite Hsr; reflexivity.
  - unfold zfbf_iteration; rewrite Hslice; cbn [bind].
    rewrite Hmm by reflexivity; reflexivity.
  - unfold slnr_max_iteration; rewrite Hslice; cbn [bind].
    rewrite Hmm by reflexivity; reflexivity.
Qed.

(** An [eta] with fewer rows than [h] has users: the users that have a
    row are processed, and at the first user [k] without one, once
    [d[k, :, :]] and the product [h . d[k]] are formed, [eta[k]] fails
    with [IndexError]. *)
Theorem eta_too_short (h eta : matrix C) (d : option (stack C)) :
  nrows eta < nrows h ->
  let d' := match d with
            | None => np_tile (np_eye (ncols h)) (nrows h) 1 1
            | Some d => d
            end in
  slnr_max h (Some eta) d
  = (_ <- for_range (seq 0 (nrows eta)) (slnr_max_iteration h eta d')
            (np_zeros (shape h)) ;;
     dk <- get_slice d' (nrows eta) ;;
     _ <- matmul h dk ;;
     Raise IndexError).
Proof.
  intros Heta d'.
  unfold slnr_max, np_transpose_1d; cbn [shape fst snd]; fold d'.
  replace (nrows h) with (nrows eta + S (nrows h - S (nrows eta))) at 1 by lia.
  rewrite seq_app, for_range_app; cbn [seq for_range Nat.add].
  match goal with
  | |- context [for_range (seq 0 (nrows eta)) ?b ?w0] =>
      destruct (for_range (seq 0 (nrows eta)) b w0) as [w|e]
  end; cbn [bind]; [|reflexivity].
  unfold slnr_max_iteration at 1.
  destruct (get_slice d' (nrows eta)) as [dk|e]; cbn [bind]; [|reflexivity].
  destruct (matmul h dk) as [hd|e]; cbn [bind]; [|reflexivity].
  rewrite get_row_out_of_range by lia; reflexivity.
Qed.

(** An [eta] whose rows have neither one item nor one item per antenna
    cannot be broadcast against [np.eye(n)]. *)
Theorem eta_width_mismatch (h eta : matrix C) (d : option (stack C)) :
  0 < nrows h -> ncols h <> 1 ->
  ncols eta <> 1 -> ncols eta <> ncols h ->
  raises (slnr_max h (Some eta) d).
Proof.
  intros Hkr Hn Heta1 Hetan; unfold slnr_max; cbn [shape fst snd].
  apply (for_range_raises_at _ 0); [apply in_seq; lia|].
  intros u; unfold slnr_max_iteration.
  destruct (get_slice _ 0) as [dk|e]; cbn [bind]; [|exists e; reflexivity].
  destruct (matmul h dk) as [hd|e]; cbn [bind]; [|exists e; reflexivity].
  unfold get_row.
  destruct (0 <? nrows eta); cbn [bind]; [|exists IndexError; reflexivity].
  unfold broadcast2 at 1; cbn [nrows ncols as_row np_eye mk_matrix shape snd].
  rewrite length_map, length_seq.
  assert (Hbc : broadcast_dim (ncols h) (ncols eta) = None).
  { unfold broadcast_dim.
    apply not_eq_sym, Nat.eqb_neq in Hetan; rewrite Hetan.
    apply Nat.eqb_neq in Hn; rewrite Hn.
    apply Nat.eqb_neq in Heta1; rewrite Heta1; reflexivity. }
  rewrite Hbc.
  destruct (broadcast_dim (ncols h) 1); exists ValueError; reflexivity.
Qed.

End WrongSizes.

Lemma mask_stack_too_shallow_witness :
  mrt sym_h22 (Some sym_d122) = Raise IndexError /\
  zfbf sym_h22 (Some sym_d122) = Raise IndexError /\
  slnr_max sym_h22 None (Some sym_d122) = Raise IndexError.
Proof.
  destruct (mask_stack_too_shallow sym_h22 sym_d122 None) as [Hm [Hz Hs]];
    [simpl; lia|].
  rewrite Hm, Hz, Hs; repeat split.
Defined.

Lemma mask_rows_mismatch_witness :
  mrt sym_h22 (Some sym_d232) = Raise ValueError /\
  zfbf sym_h22 (Some sym_d232) = Raise ValueError /\
  slnr_max sym_h22 None (Some sym_d232) = Raise ValueError.
Proof. apply (mask_rows_mismatch sym_h22 sym_d232 None); simpl; lia. Defined.

Lemma eta_too_short_witness :
  slnr_max sym_h22 (Some sym_eta11) None = Raise IndexError.
Proof.
  rewrite (eta_too_short sym_h22 sym_eta11 None) by (simpl; lia).
  reflexivity.
Defined.

Lemma eta_width_mismatch_witness :
  raises (slnr_max sym_h22 (Some sym_eta23) None).
Proof. apply (eta_width_mismatch sym_h22 sym_eta23 None); simpl; lia. Defined.

(** ** Square and non-square channel matrices *)

Section SquareOrNot.

Context {C : Type} `{Numeric C}.

Lemma mk_matrix_ext (r c : nat) (f g : nat -> nat -> C) :
  (forall i j, i < r -> j < c -> f i j = g i j) ->
  mk_matrix r c f = mk_matrix r c g.
Proof.
  intros Hfg; unfold mk_matrix; f_equal.
  apply map_ext_in; intros i Hi; apply in_seq in Hi.
  apply map_ext_in; intros j Hj; apply in_seq in Hj.
  apply Hfg; lia.
Qed.

(** The exception of a loop that assigns a vector of [n] items to column
    [k] of a [kr x n] array, for [kr] and [n] different: with at most one
    column the loop runs out of columns, with more the first vector does
    not fit a column. *)
Lemma column_loop_nonsquare_exception (kr n : nat) (col : nat -> vector)
  (body : nat -> matrix C -> result (matrix C)) (w0 : matrix C) :
  shape w0 = (kr, n) -> 0 < kr -> kr <> n ->
  (forall k u, k < kr -> body k u = set_col u k (col k)) ->
  (forall k, k < kr -> length (col k) = n) ->
  for_range (seq 0 kr) body w0
  = Raise (if n <=? 1 then IndexError else ValueError).
Proof.
  intros Hshape Hpos Hne Hbody Hlen.
  injection Hshape as Hr Hc.
  destruct kr as [|kr]; [lia|]; cbn [seq for_range].
  rewrite (Hbody 0 w0) by lia.
  pose proof (Hlen 0 ltac:(lia)) as Hl0.
  destruct n as [|[|n]]; cbn [Nat.leb].
  - rewrite set_col_index_error by lia; reflexivity.
  - destruct kr as [|kr]; [congruence|]; cbn [seq for_range].
    destruct (set_col w0 0 (col 0)) as [w1|e] eqn:Hw1; cbn [bind].
    + apply set_col_shape in Hw1; injection Hw1 as _ Hc1.
      rewrite (Hbody 1 w1) by lia.
      rewrite set_col_index_error by lia; reflexivity.
    + unfold set_col in Hw1.
      rewrite Hc, Hl0, Hr in Hw1; cbn in Hw1; discriminate Hw1.
  - rewrite set_col_value_error by lia; reflexivity.
Qed.

(** For a channel matrix that is not square, with at least one user and a
    mask stack of the documented shape [(Kr, n, n)], [mrt] raises
    [IndexError] when [h] has at most one column and [ValueError]
    otherwise; [zfbf] and [slnr_max] (with [eta] of the documented shape
    [(Kr, 1)]) raise too. *)
Theorem nonsquare_channel_exceptions (h eta : matrix C) (d : stack C) :
  0 < nrows h -> nrows h <> ncols h ->
  depth d = nrows h -> srows d = ncols h -> scols d = ncols h ->
  ncols eta = 1 ->
  mrt h (Some d) = Raise (if ncols h <=? 1 then IndexError else ValueError) /\
  raises (zfbf h (Some d)) /\
  raises (slnr_max h (Some eta) (Some d)).
Proof.
  intros Hpos Hne Hd Hsr Hsc Heta; split; [|split].
  - unfold mrt.
    apply (column_loop_nonsquare_exception (nrows h) (ncols h)
             (mrt_column h d)); [reflexivity | exact Hpos | exact Hne | |].
    + intros k u Hk; apply mrt_iteration_assigns; lia.
    + intros k _; apply length_mrt_column.
  - apply zfbf_nonsquare_raises; assumption.
  - apply slnr_max_nonsquare_raises; assumption.
Qed.

(** A loop that assigns the column [col k] at every [k] below [n] to the
    zero array of shape [(n, n)] ends with the array of these columns. *)
Lemma column_loop_square_result (n : nat) (col : nat -> vector)
  (body : nat -> matrix C -> result (matrix C)) :
  (forall k u, k < n -> body k u = set_col u k (col k)) ->
  (forall k, k < n -> length (col k) = n) ->
  for_range (seq 0 n) body (np_zeros (n, n))
  = Ok (mk_matrix n n (fun i k => nth i (col k) c0)).
Proof.
  intros Hbody Hlen.
  destruct (for_range_set_col col n (seq 0 n) body (np_zeros (n, n)))
    as [w [Hrun [Hw Hent]]].
  - intros k u Hin; apply in_seq in Hin; apply Hbody; lia.
  - intros k Hin; apply in_seq in Hin; split; [lia | apply Hlen; lia].
  - reflexivity.
  - rewrite Hrun; f_equal.
    assert (Hcanon : w = mk_matrix n n (entry w)).
    { revert Hrun.
      apply (for_range_invariant (fun u => u = mk_matrix n n (entry u))).
      - apply mk_matrix_ext; intros i j Hi Hj.
        symmetry; apply (entry_mk_matrix n n (fun _ _ => c0)); assumption.
      - intros k u u' Hin Hu Hk; apply in_seq in Hin.
        assert (Hr : nrows u = n) by (rewrite Hu; reflexivity).
        assert (Hc : ncols u = n) by (rewrite Hu; reflexivity).
        rewrite Hbody in Hk by lia.
        rewrite set_col_exact in Hk by (rewrite ?Hlen; lia).
        injection Hk as <-; rewrite Hr, Hc.
        apply mk_matrix_ext; intros i j Hi Hj.
        symmetry; apply entry_mk_matrix; assumption. }
    rewrite Hcanon; apply mk_matrix_ext; intros i j Hi Hj.
    rewrite (Hent i j Hi Hj).
    replace (existsb (Nat.eqb j) (seq 0 n)) with true; [reflexivity|].
    symmetry; apply existsb_exists; exists j; split.
    + apply in_seq; lia.
    + apply Nat.eqb_refl.
Qed.

(** For a square channel matrix and a mask stack of the documented shape,
    [mrt] returns the array whose column [k] is the conjugate of the
    masked channel of user [k] over its 2-norm, and nothing else. *)
Theorem mrt_square_result (h : matrix C) (d : stack C) :
  nrows h = ncols h ->
  depth d = nrows h -> srows d = ncols h -> scols d = ncols h ->
  mrt h (Some d)
  = Ok (mk_matrix (ncols h) (ncols h)
          (fun i k => nth i (mrt_column h d k) c0)).
Proof.
  intros Hsq Hd Hsr Hsc.
  unfold mrt, np_transpose_1d, shape; cbn [fst snd]; rewrite Hsq.
  apply column_loop_square_result.
  - intros k u Hk; apply mrt_iteration_assigns; lia.
  - intros k _; apply length_mrt_column.
Qed.

End SquareOrNot.

Lemma mrt_square_result_witness :
  mrt sym_h22 (Some sym_d222)
  = Ok (mk_matrix 2 2 (fun i k => nth i (mrt_column sym_h22 sym_d222 k) c0)).
Proof. apply (mrt_square_result sym_h22 sym_d222); reflexivity. Defined.

Lemma nonsquare_channel_exceptions_witness :
  mrt sym_h12 (Some sym_d122) = Raise ValueError /\
  raises (zfbf sym_h12 (Some sym_d122)) /\
  raises (slnr_max sym_h12 (Some sym_eta11) (Some sym_d122)).
Proof.
  apply (nonsquare_channel_exceptions sym_h12 sym_eta11 sym_d122);
    solve [reflexivity | simpl; lia].
Defined.

Section SquareSolvers.

Context {C : Type} `{Numeric C}.

(** In [mrt], column [k] of the result is computed from row [k] of [h]
    alone: two square channel matrices that agree on the row of user [k]
    give the same beamforming vector to that user, whatever the channels
    of the other users. *)
Theorem mrt_column_depends_on_own_row (h h' : matrix C) (d : stack C)
  (k : nat) :
  nrows h = ncols h -> nrows h' = ncols h -> ncols h' = ncols h ->
  depth d = nrows h -> srows d = ncols h -> scols d = ncols h ->
  k < ncols h ->
  (forall j, j < ncols h -> entry h k j = entry h' k j) ->
  exists w w',
    mrt h (Some d) = Ok w /\ mrt h' (Some d) = Ok w' /\
    forall i, i < ncols h -> entry w i k = entry w' i k.
Proof.
  intros Hsq Hr' Hc' Hd Hsr Hsc Hk Hrow.
  destruct (mrt_square_columns h d Hsq Hd Hsr Hsc) as [w [Hw [_ Hent]]].
  destruct (mrt_square_columns h' d) as [w' [Hw' [_ Hent']]]; try lia.
  exists w, w'; split; [exact Hw|]; split; [exact Hw'|].
  intros i Hi.
  rewrite Hent by lia; rewrite Hent' by lia.
  f_equal; unfold mrt_column, masked_channel; rewrite Hc'.
  assert (Hchan :
    map (fun j =>
           sum (map (fun i0 => cmul (entry h k i0)
                                 (nth j (nth i0 (nth k (slices d) []) []) c0))
                  (seq 0 (ncols h))))
      (seq 0 (ncols h))
    = map (fun j =>
             sum (map (fun i0 => cmul (entry h' k i0)
                                   (nth j (nth i0 (nth k (slices d) []) []) c0))
                    (seq 0 (ncols h))))
        (seq 0 (ncols h))).
  { apply map_ext; intros j; f_equal.
    apply map_ext_in; intros i0 Hi0; apply in_seq in Hi0.
    rewrite Hrow by lia; reflexivity. }
  rewrite Hchan; reflexivity.
Qed.





End SquareSolvers.

Lemma mrt_column_depends_on_own_row_witness :
  exists w w',
    mrt sym_h22 (Some sym_d222) = Ok w /\
    mrt sym_h22_other (Some sym_d222) = Ok w' /\
    forall i, i < 2 -> entry w i 0 = entry w' i 0.
Proof.
  apply (mrt_column_depends_on_own_row sym_h22 sym_h22_other sym_d222 0);
    solve [reflexivity | simpl; lia].
Defined.


Section NoUser.

Context {C : Type} `{Numeric C}.

(** Without users ([h] has no row) the loop body never runs: each routine
    returns the empty array of the shape of [h], and [d] and [eta] are
    not looked at, whatever their shapes. *)
Theorem no_user_empty_result (h : matrix C) (d : option (stack C))
  (eta : option (matrix C)) :
  nrows h = 0 ->
  mrt h d = Ok (Matrix 0 (ncols h) []) /\
  zfbf h d = Ok (Matrix 0 (ncols h) []) /\
  slnr_max h eta d = Ok (Matrix 0 (ncols h) []).
Proof.
  intros Hkr.
  unfold mrt, zfbf, slnr_max, np_transpose_1d, shape; cbn [fst snd].
  rewrite Hkr; repeat split.
Qed.

End NoUser.

Lemma no_user_empty_result_witness :
  mrt sym_h02 (Some sym_d232) = Ok (Matrix 0 2 []) /\
  zfbf sym_h02 (Some sym_d232) = Ok (Matrix 0 2 []) /\
  slnr_max sym_h02 (Some sym_eta23) (Some sym_d232) = Ok (Matrix 0 2 []).
Proof.
  apply (no_user_empty_result sym_h02 (Some sym_d232) (Some sym_eta23));
    reflexivity.
Defined.

(** ** Calls of [brb_algorithm_cvx] *)

Section CallBinding.

Import Call.

Lemma bind_positional_raises (ps : list param) (args : list pyval) (e : exn) :
  bind_positional ps args = Raise e -> e = TypeError.
Proof.
  revert args; induction ps as [|p ps IH]; intros [|a args]; simpl;
    try discriminate.
  - intros [= <-]; reflexivity.
  - destruct (bind_positional ps []) eqn:Hb; simpl; [discriminate|].
    intros [= <-]; exact (IH _ Hb).
  - destruct (bind_positional ps args) eqn:Hb; simpl; [discriminate|].
    intros [= <-]; exact (IH _ Hb).
Qed.

Lemma bind_positional_names (ps : list param) (args : list pyval) (sl : slots) :
  bind_positional ps args = Ok sl -> map fst sl = map pname ps.
Proof.
  revert args sl; induction ps as [|p ps IH]; intros [|a args] sl; simpl;
    try discriminate.
  - intros [= <-]; reflexivity.
  - destruct (bind_positional ps []) eqn:Hb; simpl; [|discriminate].
    intros [= <-]; simpl; f_equal; exact (IH _ _ Hb).
  - destruct (bind_positional ps args) eqn:Hb; simpl; [|discriminate].
    intros [= <-]; simpl; f_equal; exact (IH _ _ Hb).
Qed.

Lemma bind_keyword_raises (sl : slots) (name : string) (v : pyval) (e : exn) :
  bind_keyword sl name v = Raise e -> e = TypeError.
Proof.
  induction sl as [|[n s] sl IH]; simpl.
  - intros [= <-]; reflexivity.
  - destruct (String.eqb n name).
    + destruct s; [intros [= <-]; reflexivity | discriminate].
    + destruct (bind_keyword sl name v); simpl; [discriminate|].
      intros [= <-]; apply IH; reflexivity.
Qed.

(** A keyword that names no parameter is rejected. *)
Lemma bind_keyword_unknown (sl : slots) (name : string) (v : pyval) :
  ~ In name (map fst sl) -> bind_keyword sl name v = Raise TypeError.
Proof.
  induction sl as [|[n s] sl IH]; simpl; intros Hin; [reflexivity|].
  destruct (String.eqb n name) eqn:Hn.
  - apply String.eqb_eq in Hn; exfalso; apply Hin; left; exact Hn.
  - rewrite IH; [reflexivity|]; intros Hin'; apply Hin; right; exact Hin'.
Qed.

(** A keyword is rejected when every parameter has its value already. *)
Lemma bind_keyword_full (sl : slots) (name : string) (v : pyval) :
  Forall (fun s => snd s <> None) sl -> bind_keyword sl name v = Raise TypeError.
Proof.
  induction sl as [|[n s] sl IH]; simpl; intros Hfull; [reflexivity|].
  inversion Hfull as [|? ? Hs Hrest]; subst; simpl in Hs.
  destruct (String.eqb n name).
  - destruct s; [reflexivity | contradiction].
  - rewrite (IH Hrest); reflexivity.
Qed.

Lemma bind_keywords_raises (kwargs : list (string * pyval)) (sl : slots)
  (e : exn) :
  bind_keywords sl kwargs = Raise e -> e = TypeError.
Proof.
  revert sl; induction kwargs as [|[name v] kwargs IH]; intros sl; simpl;
    [discriminate|].
  destruct (bind_keyword sl name v) as [sl'|e'] eqn:Hb; simpl.
  - apply IH.
  - intros [= <-]; exact (bind_keyword_raises _ _ _ _ Hb).
Qed.

Lemma fill_defaults_raises (ps : list param) (sl : slots) (e : exn) :
  fill_defaults ps sl = Raise e -> e = TypeError.
Proof.
  revert sl; induction ps as [|p ps IH]; intros [|[n s] sl]; simpl;
    try discriminate.
  destruct s as [v|]; [|destruct (pdefault p) as [v|]]; simpl.
  - destruct (fill_defaults ps sl) eqn:Hf; simpl; [discriminate|].
    intros [= <-]; exact (IH _ Hf).
  - destruct (fill_defaults ps sl) eqn:Hf; simpl; [discriminate|].
    intros [= <-]; exact (IH _ Hf).
  - intros [= <-]; reflexivity.
Qed.

Lemma bind_args_raises (ps : list param) (args : list pyval)
  (kwargs : list (string * pyval)) (e : exn) :
  bind_args ps args kwargs = Raise e -> e = TypeError.
Proof.
  unfold bind_args.
  destruct (bind_positional ps args) as [sl|e1] eqn:Hp; simpl;
    [|intros [= <-]; exact (bind_positional_raises _ _ _ Hp)].
  destruct (bind_keywords sl kwargs) as [sl'|e2] eqn:Hk; simpl;
    [|intros [= <-]; exact (bind_keywords_raises _ _ _ Hk)].
  apply fill_defaults_raises.
Qed.

(** Without keywords, a call is accepted exactly when it has twelve
    positional arguments; any other number is a [TypeError]. *)
Theorem brb_arity (args : list pyval) :
  outcome (brb_algorithm_cvx args [])
  = if length args =? 12 then Ok PyNone else Raise TypeError.
Proof.
  do 13 (destruct args as [|? args]; [reflexivity|]).
  reflexivity.
Qed.

(** The only exception a call can raise is the [TypeError] of the
    argument binding; a call that returns returns [None]; and in either
    case no iteration and no feasibility evaluation has been performed. *)
Theorem brb_outcomes (args : list pyval) (kwargs : list (string * pyval)) :
  (outcome (brb_algorithm_cvx args kwargs) = Ok PyNone \/
   outcome (brb_algorithm_cvx args kwargs) = Raise TypeError) /\
  events (brb_algorithm_cvx args kwargs) = [].
Proof.
  unfold brb_algorithm_cvx.
  destruct (bind_args brb_parameters args kwargs) as [env|e] eqn:Hb; simpl.
  - split; [left; reflexivity | reflexivity].
  - rewrite (bind_args_raises _ _ _ _ Hb); split; [right|]; reflexivity.
Qed.

(** A keyword argument whose name is not one of the twelve parameter
    names of the source is rejected, whatever else is passed. *)
Theorem brb_unknown_keyword (args : list pyval) (name : string) (v : pyval)
  (kwargs : list (string * pyval)) :
  ~ In name (map pname brb_parameters) ->
  outcome (brb_algorithm_cvx args ((name, v) :: kwargs)) = Raise TypeError.
Proof.
  intros Hname; unfold brb_algorithm_cvx, bind_args.
  destruct (bind_positional brb_parameters args) as [sl|e] eqn:Hp;
    cbn [bind bind_keywords].
  - rewrite bind_keyword_unknown; [reflexivity|].
    rewrite (bind_positional_names _ _ _ Hp); exact Hname.
  - rewrite (bind_positional_raises _ _ _ Hp); reflexivity.
Qed.

(** With twelve positional arguments every parameter has its value, so
    any keyword argument is rejected. *)
Theorem brb_keyword_after_twelve (args : list pyval)
  (kwargs : list (string * pyval)) :
  length args = 12 -> kwargs <> [] ->
  outcome (brb_algorithm_cvx args kwargs) = Raise TypeError.
Proof.
  intros Hlen Hkw.
  do 12 (destruct args as [|? args]; [discriminate Hlen|]).
  destruct args; [|discriminate Hlen].
  destruct kwargs as [|[name v] kwargs]; [contradiction|].
  unfold brb_algorithm_cvx, bind_args.
  cbn [brb_parameters map required bind_positional pname bind bind_keywords].
  rewrite bind_keyword_full; [reflexivity|].
  repeat constructor; discriminate.
Qed.

(** The last arguments may be passed by keyword under the parameter names
    of the source: the first [i] arguments by position and the others by
    name is a call that is accepted. *)
Theorem brb_trailing_keywords (args : list pyval) (i : nat) :
  length args = 12 -> i <= 12 ->
  brb_algorithm_cvx (firstn i args)
    (combine (skipn i (map pname brb_parameters)) (skipn i args))
  = Run [] (Ok PyNone).
Proof.
  intros Hlen Hi.
  do 12 (destruct args as [|? args]; [discriminate Hlen|]).
  destruct args; [|discriminate Hlen].
  do 13 (destruct i as [|i]; [reflexivity|]).
  lia.
Qed.

End CallBinding.

Lemma brb_unknown_keyword_witness :
  outcome (brb_algorithm_cvx (firstn 6 valid_call)
             [("weights"%string, py_vector [1%Q; 1%Q])]) = Raise TypeError.
Proof.
  apply (brb_unknown_keyword (firstn 6 valid_call) "weights").
  simpl; intros Hin.
  repeat (destruct Hin as [Hin|Hin]; [discriminate Hin|]).
  exact Hin.
Defined.

Lemma brb_keyword_after_twelve_witness :
  outcome (brb_algorithm_cvx valid_call
             [("epsilon"%string, PyFloat (1 # 100))]) = Raise TypeError.
Proof.
  apply (brb_keyword_after_twelve valid_call); [reflexivity | discriminate].
Defined.

Lemma brb_trailing_keywords_witness :
  brb_algorithm_cvx (firstn 6 valid_call)
    (combine (skipn 6 (map Call.pname brb_parameters)) (skipn 6 valid_call))
  = Run [] (Ok PyNone).
Proof. apply (brb_trailing_keywords valid_call 6); [reflexivity | lia]. Defined.

(** ** Square channel matrices with the arguments omitted *)

Section SquareDefaults.

Context {C : Type} `{Numeric C}.


End SquareDefaults.

